(** * slang: a stack interpreter written in JavaScript (src/nslang.js)

    A shallow embedding of the value constructors, the stack and environment
    helpers, the interpreter loop [run] and the standard library of
    primitives, followed by the properties proved about them.

    JavaScript data is embedded as follows.
    - A number is an IEEE 754 binary64 value: Rocq's primitive [float].
    - An array (the program, the stack) is a [list] in index order, so the
      top of the stack is the LAST element, as with [Array.prototype.push]
      and [Array.prototype.pop].
    - The environment is a plain object: its own properties are a [gmap];
      what it inherits from its prototype is written out in [inherited].
    - An array is mutated in place and handed back; the embedding passes the
      contents in and the new contents out.  A [World] holds the program and
      the stack as two different arrays; a [Heap], further down, also covers
      a run handed one array as both.
    - The only exception the code can raise is the host's [TypeError] (a
      property read on [undefined]); a [completion] records whether a call
      returned or threw, and the contents of the mutated object either way. *)

From Stdlib Require Import ZArith Lia List PrimFloat.
From stdpp Require Import gmap strings list.

Local Open Scope string_scope.
Local Open Scope list_scope.
Local Open Scope Z_scope.

(** ** Values *)

(** The four binary operators the standard library applies to payloads. *)
Inductive binop := Add | Sub | Mul | Div.

(** What a [v] field can hold: a JavaScript primitive or a host function.
    [P] names the host functions wrapped by [prim].  The operators of
    JavaScript coerce operands that are not both numbers (string
    concatenation, ToNumber, ToString); the result of such a coercion is kept
    as the uninterpreted term [PArith] or [PSqrt]: it stands for a primitive
    number or string that no definition below inspects. *)
Inductive payload (P : Type) :=
  | PUndefined
  | PNum (x : float)
  | PStr (s : String.string)
  | PFun (f : P)
  | PArith (op : binop) (a b : payload P)
  | PSqrt (a : payload P).
Arguments PUndefined {P}.
Arguments PNum {P} x.
Arguments PStr {P} s.
Arguments PFun {P} f.
Arguments PArith {P} op a b.
Arguments PSqrt {P} a.

(** The objects [{t: ..., v: ...}] built by the four constructor functions
    [number], [string], [word] and [prim].  The tag [t] is the constructor;
    [string] and [word] carry text, [prim] a host function, and [number]
    whatever the arithmetic primitives computed. *)
Inductive Value (P : Type) :=
  | number (v : payload P)
  | string (v : String.string)
  | word (v : String.string)
  | prim (v : P).
Arguments number {P} v.
Arguments string {P} v.
Arguments word {P} v.
Arguments prim {P} v.

(** Anything an array slot or a variable can hold: a payload on its own
    ([raw PUndefined] is JavaScript's [undefined]), a tagged object, or one
    of the objects every plain object inherits from [Object.prototype]. *)
Inductive jsval (P : Type) :=
  | raw (p : payload P)
  | obj (x : Value P)
  | builtin (name : String.string).
Arguments raw {P} p.
Arguments obj {P} x.
Arguments builtin {P} name.

Abbreviation undefined := (raw PUndefined).

(** The only exception raised anywhere in the code. *)
Inductive exn := TypeError.

(** How a call on a mutable object of contents [S] ends: it returns, leaving
    the object as [s], or it throws [e], leaving the object as [s]. *)
Inductive completion (S : Type) :=
  | Done (s : S)
  | Thrown (e : exn) (s : S).
Arguments Done {S} s.
Arguments Thrown {S} e s.

Definition final {S : Type} (c : completion S) : S :=
  match c with Done s => s | Thrown _ s => s end.


Section Core.

Context {P : Type}.

Abbreviation payload := (payload P).
Abbreviation Value := (Value P).
Abbreviation jsval := (jsval P).

(** The two fields of a tagged object. *)
Definition field_t (x : Value) : payload :=
  match x with
  | number _ => PStr "number"
  | string _ => PStr "string"
  | word _ => PStr "word"
  | prim _ => PStr "prim"
  end.

Definition field_v (x : Value) : payload :=
  match x with
  | number v => v
  | string s => PStr s
  | word s => PStr s
  | prim f => PFun f
  end.

(** [x.v]: [None] is the [TypeError] of reading a property of [undefined];
    a value that is not a tagged object has no [v] property. *)
Definition prop_v (x : jsval) : option payload :=
  match x with
  | raw PUndefined => None
  | obj r => Some (field_v r)
  | _ => Some PUndefined
  end.

(** ** Arrays and the stack *)

(** [a[i]] for an integer index: [undefined] outside the array. *)
Definition array_get (a : list jsval) (i : Z) : jsval :=
  if i <? 0 then undefined else default undefined (a !! Z.to_nat i).

Definition array_length (a : list jsval) : Z := Z.of_nat (length a).

Definition Stack := list jsval.

(** [stack.push(item); return stack;] *)
Definition push (stack : Stack) (item : jsval) : Stack := stack ++ [item].

(** [return stack.pop();]: the removed element and the array left behind;
    on an empty array [Array.prototype.pop] returns [undefined] and changes
    nothing. *)
Definition pop (stack : Stack) : jsval * Stack :=
  (default undefined (last stack), removelast stack).

(** [return stack[stack.length - 1];] *)
Definition topitem (stack : Stack) : jsval :=
  array_get stack (array_length stack - 1).

(** [return stack[stack.length - 1 - i];] *)
Definition topi (stack : Stack) (i : Z) : jsval :=
  array_get stack (array_length stack - 1 - i).

(** [return stack.length;] *)
Definition depth (stack : Stack) : Z := array_length stack.

(** ** The environment *)

(** A plain object: the properties [define] created on it, and its
    prototype, [None] for [Object.prototype], which [mk_env]'s object literal
    starts with. *)
Record Env := { own : gmap String.string Value; proto : option Value }.

(** [return {};] *)
Definition mk_env : Env := {| own := ∅; proto := None |}.

(** The data properties of [Object.prototype]. *)
Definition Object_prototype_names : list String.string :=
  [ "constructor"; "hasOwnProperty"; "isPrototypeOf"; "propertyIsEnumerable";
    "toLocaleString"; "toString"; "valueOf"; "__defineGetter__";
    "__defineSetter__"; "__lookupGetter__"; "__lookupSetter__" ].

Definition Object_prototype (key : String.string) : jsval :=
  if bool_decide (key ∈ Object_prototype_names) then builtin key
  else undefined.

(** A property read that found no own property walks the prototype chain.
    [__proto__] is an accessor of [Object.prototype] that yields the
    prototype itself; a tagged object used as prototype contributes its two
    fields. *)
Definition inherited (proto : option Value) (key : String.string) : jsval :=
  match proto with
  | None =>
      if bool_decide (key = "__proto__") then builtin "Object.prototype"
      else Object_prototype key
  | Some r =>
      if bool_decide (key = "__proto__") then obj r
      else if bool_decide (key = "t") then raw (field_t r)
      else if bool_decide (key = "v") then raw (field_v r)
      else Object_prototype key
  end.

(** What [define] has bound to [key]: an own property, or for [__proto__]
    the prototype it installed. *)
Definition binding (env : Env) (key : String.string) : option Value :=
  match own env !! key with
  | Some x => Some x
  | None => if bool_decide (key = "__proto__") then proto env else None
  end.

(** [env[key]] *)
Definition env_get (env : Env) (key : String.string) : jsval :=
  match own env !! key with
  | Some x => obj x
  | None => inherited (proto env) key
  end.

(** [return env[word.v];]  Words are built by [word] from text, so the
    embedding takes the word's symbol [word.v]. *)
Definition lookup (env : Env) (word_v : String.string) : jsval :=
  env_get env word_v.

(** [env[key] = value; return env;]  The assignment creates or overwrites an
    own property, except that on an object with no own [__proto__] it runs
    the inherited setter, which makes the (object) value the prototype. *)
Definition define (env : Env) (key : String.string) (value : Value) : Env :=
  match own env !! key with
  | None =>
      if bool_decide (key = "__proto__")
      then {| own := own env; proto := Some value |}
      else {| own := <[key := value]> (own env); proto := proto env |}
  | Some _ => {| own := <[key := value]> (own env); proto := proto env |}
  end.

(** ** The interpreter loop *)

(** What the host functions wrapped by [prim] do: the contract of a
    primitive is a function on the stack.  It works on the array it is
    handed and returns it, or throws part-way, leaving the array as it was
    at that point. *)
Variable host : P -> Stack -> completion Stack.

(** [return prim.v(stack);]  As for [lookup], the embedding takes the
    wrapped function [prim.v]. *)
Definition apply (prim_v : P) (stack : Stack) : completion Stack :=
  host prim_v stack.

(** The three objects [run] is handed. *)
Record World := { env : Env; program : list jsval; stack : Stack }.

Definition set_stack (w : World) (s : Stack) : World :=
  {| env := env w; program := program w; stack := s |}.

Definition with_stack (w : World) (c : completion Stack) : completion World :=
  match c with
  | Done s => Done (set_stack w s)
  | Thrown e s => Thrown e (set_stack w s)
  end.

(** [if (instr.t === 'word') { instr = lookup(env, instr); }] for an
    [instr] other than [undefined]. *)
Definition resolve (env : Env) (instr : jsval) : jsval :=
  match instr with
  | obj (word s) => lookup env s
  | _ => instr
  end.

(** [switch (instr.t) { case 'prim': stack = apply(instr, stack); break;
                          default: push(stack, instr); break; }]
    Reading [instr.t] throws when [instr] is [undefined]; only a tagged
    object made by [prim] has the tag ['prim']. *)
Definition dispatch (w : World) (instr : jsval) : completion World :=
  match instr with
  | undefined => Thrown TypeError w
  | obj (prim f) => with_stack w (apply f (stack w))
  | _ => Done (set_stack w (push (stack w) instr))
  end.

(** The body of the [for] loop at program counter [pc]: fetch [program[pc]],
    resolve it if it is a word, dispatch on its tag.  The first read of
    [instr.t] already throws when the fetched [instr] is [undefined]. *)
Definition step (w : World) (pc : Z) : completion World :=
  match array_get (program w) pc with
  | undefined => Thrown TypeError w
  | instr => dispatch w (resolve (env w) instr)
  end.

(** The loop seen from outside: [Exec w pc k c] when the loop entered at [pc]
    with the objects as [w] runs the body [k] times, at [pc], [pc + 1], ...,
    and ends as [c]. *)
Inductive Exec : World -> Z -> nat -> completion World -> Prop :=
  | Exec_end w pc :
      array_length (program w) <= pc ->
      Exec w pc 0 (Done w)
  | Exec_throw w pc e w' :
      pc < array_length (program w) ->
      step w pc = Thrown e w' ->
      Exec w pc 1 (Thrown e w')
  | Exec_next w pc w' k c :
      pc < array_length (program w) ->
      step w pc = Done w' ->
      Exec w' (pc + 1) k c ->
      Exec w pc (S k) c.

(** [for (; pc < program.length; ++pc) { ... } return stack;]  The recursion
    is on [fuel]; [run] supplies the number of iterations that remain, and
    [run_from_enough] below shows that more fuel changes nothing. *)
Fixpoint run_from (fuel : nat) (w : World) (pc : Z) : completion World :=
  if pc <? array_length (program w) then
    match fuel with
    | O => Done w
    | S fuel' =>
        match step w pc with
        | Done w' => run_from fuel' w' (pc + 1)
        | Thrown e w' => Thrown e w'
        end
    end
  else Done w.

(** The number of iterations left when the loop is entered at [pc]. *)
Definition remaining (w : World) (pc : Z) : nat :=
  Z.to_nat (array_length (program w) - pc).

Definition run_world (w : World) (pc : Z) : completion World :=
  run_from (remaining w pc) w pc.


(** [run(env, program, pc, stack)] *)
Definition run (env : Env) (program : list jsval) (pc : Z) (stack : Stack)
  : completion World :=
  run_world {| env := env; program := program; stack := stack |} pc.

End Core.

Arguments Env P : clear implicits.
Arguments World P : clear implicits.
Arguments Stack P : clear implicits.

(** ** The standard library *)

(** The host functions defined in the source: the four of [load_stdlib] and
    the two added through [stddefs]. *)
Inductive stdprim :=
  | PrimAdd | PrimSub | PrimMul | PrimDiv | PrimDup | PrimSqrt.

Module Stdlib.

(** The operator on two numbers is IEEE 754 arithmetic. *)
Definition float_binop (op : binop) : float -> float -> float :=
  match op with
  | Add => PrimFloat.add
  | Sub => PrimFloat.sub
  | Mul => PrimFloat.mul
  | Div => PrimFloat.div
  end.

(** [a + b], [a - b], [a * b], [a / b] on payloads.  [+] concatenates two
    strings; every other mix of operands is a coercion (see [payload]). *)
Definition js_binop {P : Type} (op : binop) (a b : payload P) : payload P :=
  match op, a, b with
  | _, PNum x, PNum y => PNum (float_binop op x y)
  | Add, PStr x, PStr y => PStr (String.append x y)
  | _, _, _ => PArith op a b
  end.

(** [Math.sqrt(a)] *)
Definition js_sqrt {P : Type} (a : payload P) : payload P :=
  match a with
  | PNum x => PNum (PrimFloat.sqrt x)
  | _ => PSqrt a
  end.

(** [let y = pop(stack), x = pop(stack);
     return push(stack, number(x.v OP y.v));]
    Both elements are popped before [x.v] and then [y.v] are read. *)
Definition arith (op : binop) (stack : Stack stdprim)
  : completion (Stack stdprim) :=
  let '(y, stack) := pop stack in
  let '(x, stack) := pop stack in
  match prop_v x with
  | None => Thrown TypeError stack
  | Some xv =>
      match prop_v y with
      | None => Thrown TypeError stack
      | Some yv => Done (push stack (obj (number (js_binop op xv yv))))
      end
  end.

(** [return push(stack, topitem(stack));] *)
Definition dup (stack : Stack stdprim) : completion (Stack stdprim) :=
  Done (push stack (topitem stack)).

(** [let x = pop(stack); return push(stack, number(Math.sqrt(x.v)));] *)
Definition sqrt (stack : Stack stdprim) : completion (Stack stdprim) :=
  let '(x, stack) := pop stack in
  match prop_v x with
  | None => Thrown TypeError stack
  | Some xv => Done (push stack (obj (number (js_sqrt xv))))
  end.

Definition host (f : stdprim) : Stack stdprim -> completion (Stack stdprim) :=
  match f with
  | PrimAdd => arith Add
  | PrimSub => arith Sub
  | PrimMul => arith Mul
  | PrimDiv => arith Div
  | PrimDup => dup
  | PrimSqrt => sqrt
  end.

(** [load_stdlib] as first defined: four [define] calls on the same
    environment, which is then returned. *)
Definition load_stdlib (env : Env stdprim) : Env stdprim :=
  let env := define env "+" (prim PrimAdd) in
  let env := define env "-" (prim PrimSub) in
  let env := define env "*" (prim PrimMul) in
  let env := define env "/" (prim PrimDiv) in
  env.

(** [stddefs(new_defns)] rebinds [load_stdlib] to
    [function (env) { return new_defns(load_first(env)) || env; }]:
    [new_defns] works on the environment object it is handed, so what is
    returned is that object either way. *)
Definition stddefs (new_defns : Env stdprim -> Env stdprim)
    (load_first : Env stdprim -> Env stdprim) : Env stdprim -> Env stdprim :=
  fun env => new_defns (load_first env).

(** The definitions handed to [stddefs]. *)
Definition dup_sqrt_defns (env : Env stdprim) : Env stdprim :=
  let env := define env "dup" (prim PrimDup) in
  let env := define env "sqrt" (prim PrimSqrt) in
  env.

(** [load_stdlib] once [stddefs] has rebound it. *)
Definition load_stdlib_ext : Env stdprim -> Env stdprim :=
  stddefs dup_sqrt_defns load_stdlib.

(** [return load_stdlib(mk_env());] *)
Definition test_env : Env stdprim := load_stdlib_ext mk_env.

(** [run] with the standard library as host. *)
Definition run := run host.

(** [tests.smoke] *)
Definition smoke : completion (World stdprim) :=
  let env := load_stdlib_ext mk_env in
  let program :=
    [ obj (number (PNum 1)); obj (number (PNum 2)); obj (word "+") ] in
  run env program 0 [].

(** [tests.distance] *)
Definition distance (x1 y1 x2 y2 : float) : completion (World stdprim) :=
  let program :=
    [ obj (number (PNum x1)); obj (number (PNum x2)); obj (word "-");
      obj (word "dup"); obj (word "*");
      obj (number (PNum y1)); obj (number (PNum y2)); obj (word "-");
      obj (word "dup"); obj (word "*");
      obj (word "+"); obj (word "sqrt") ] in
  run test_env program 0 [].

End Stdlib.


(** ** Displaying the stack *)

Section Display.

Context {P : Type}.

(** [x.t]: as for [prop_v], [None] is the [TypeError] of reading a property
    of [undefined], and a value that is not a tagged object has no [t]. *)
Definition prop_t (x : jsval P) : option (payload P) :=
  match x with
  | undefined => None
  | obj r => Some (field_t r)
  | _ => Some PUndefined
  end.

(** The two conversions of the host that [show_item] relies on and the
    source does not define: how [+] turns a number or a function into text,
    and [JSON.stringify] on a string. *)
Variable ToString : payload P -> String.string.
Variable JSON_stringify : String.string -> String.string.

(** The text [+] makes of an operand next to a string: a string is itself,
    [undefined] reads ["undefined"]. *)
Definition to_text (p : payload P) : String.string :=
  match p with
  | PStr s => s
  | PUndefined => "undefined"
  | _ => ToString p
  end.

(** The line [show_item] writes for [item]:
    ['string(' + JSON.stringify(item.v) + ')'] when [item.t] is ['string'],
    [item.t + '(' + item.v + ')'] otherwise; [None] when reading [item.t]
    throws. *)
Definition show_line (item : jsval P) : option String.string :=
  match prop_t item, prop_v item with
  | Some t, Some v =>
      match item with
      | obj (string s) =>
          Some (String.append "string("
                  (String.append (JSON_stringify s) ")"))
      | _ =>
          Some (String.append (to_text t)
                  (String.append "(" (String.append (to_text v) ")")))
      end
  | _, _ => None
  end.

(** [line] is what [show_item] writes for [item]. *)
Definition writes (item : jsval P) (line : String.string) : Prop :=
  show_line item = Some line.

(** [show_item(item)]: the console is the list of lines written so far. *)
Definition show_item (item : jsval P) (console : list String.string)
  : completion (list String.string) :=
  match show_line item with
  | Some line => Done (console ++ [line])
  | None => Thrown TypeError console
  end.

(** [for (let i = 0; i < n; ++i) { show_item(topi(stack, i)); }]:
    [count] iterations are left and the next one is at [i]. *)
Fixpoint show_loop (count : nat) (i : Z) (stack : Stack P)
    (console : list String.string) : completion (list String.string) :=
  match count with
  | O => Done console
  | S count' =>
      match show_item (topi stack i) console with
      | Done console' => show_loop count' (i + 1) stack console'
      | Thrown e console' => Thrown e console'
      end
  end.

(** [n = Math.min(n || 20, depth(stack));]  [None] is an omitted [n]; like
    [0] it is falsy, so both give 20. *)
Definition show_count (stack : Stack P) (n : option Z) : Z :=
  Z.min (match n with
         | None | Some 0 => 20
         | Some n => n
         end) (depth stack).

(** [show(stack, n)] *)
Definition show (stack : Stack P) (n : option Z)
    (console : list String.string) : completion (list String.string) :=
  show_loop (Z.to_nat (show_count stack n)) 0 stack console.

End Display.

(** ** The loop body as a function of the instruction *)

Section Instructions.

Context {P : Type} (host : P -> Stack P -> completion (Stack P)).

(** What a completion says about the stack alone. *)
Definition stack_of (c : completion (World P)) : completion (Stack P) :=
  match c with
  | Done w => Done (stack w)
  | Thrown e w => Thrown e (stack w)
  end.

(** One iteration of the loop of [run] reads [env], the instruction
    [program[pc]] and the stack; this is what it does to the stack. *)
Definition exec (env : Env P) (instr : jsval P) (stack : Stack P)
  : completion (Stack P) :=
  match instr with
  | undefined => Thrown TypeError stack
  | _ =>
      match resolve env instr with
      | undefined => Thrown TypeError stack
      | obj (prim f) => apply host f stack
      | x => Done (push stack x)
      end
  end.

(** The instructions in order, up to the first that throws. *)
Fixpoint run_list (env : Env P) (instrs : list (jsval P)) (stack : Stack P)
  : completion (Stack P) :=
  match instrs with
  | [] => Done stack
  | instr :: instrs' =>
      match exec env instr stack with
      | Done stack' => run_list env instrs' stack'
      | Thrown e stack' => Thrown e stack'
      end
  end.

(** An instruction that is pushed as it stands: not [undefined], not a word,
    not a primitive. *)
Definition is_literal (instr : jsval P) : bool :=
  match instr with
  | undefined => false
  | obj (word _) => false
  | obj (prim _) => false
  | _ => true
  end.

Definition is_word (x : jsval P) : bool :=
  match x with
  | obj (word _) => true
  | _ => false
  end.

End Instructions.

(** ** The standard library's operators *)

(** The primitive [load_stdlib] defines for each operator, and the name it
    defines it under. *)
Definition operator_prim (op : binop) : stdprim :=
  match op with
  | Add => PrimAdd
  | Sub => PrimSub
  | Mul => PrimMul
  | Div => PrimDiv
  end.

Definition operator_name (op : binop) : String.string :=
  match op with
  | Add => "+"
  | Sub => "-"
  | Mul => "*"
  | Div => "/"
  end.

(** ** The program and the stack as array objects *)

(** [run] is handed two arrays, and nothing keeps a caller from handing it
    one array as both.  [World] above describes a run on two different
    arrays.  A [Heap] also covers the other case: the arrays are [Apart],
    each with its own contents, or the [Same] object, in which case every
    [push] and [pop] on the stack is a change of the program, and
    [program.length], which the loop reads anew before every iteration,
    moves with the stack. *)

Section Aliasing.

Context {P : Type} (host : P -> Stack P -> completion (Stack P)).

Inductive Arrays :=
  | Apart (program stack : list (jsval P))
  | Same (array : list (jsval P)).

(** What [program] and [stack] hold. *)
Definition program_of (a : Arrays) : list (jsval P) :=
  match a with Apart program _ => program | Same array => array end.

Definition stack_in (a : Arrays) : Stack P :=
  match a with Apart _ stack => stack | Same array => array end.

(** The stack array, mutated in place, now holds [s]. *)
Definition store_stack (a : Arrays) (s : Stack P) : Arrays :=
  match a with Apart program _ => Apart program s | Same _ => Same s end.

Record Heap := { heap_env : Env P; heap_arrays : Arrays }.

Definition set_arrays (h : Heap) (s : Stack P) : Heap :=
  {| heap_env := heap_env h; heap_arrays := store_stack (heap_arrays h) s |}.

Definition with_arrays (h : Heap) (c : completion (Stack P))
  : completion Heap :=
  match c with
  | Done s => Done (set_arrays h s)
  | Thrown e s => Thrown e (set_arrays h s)
  end.

(** The body of the [for] loop, as [step], on the array objects. *)
Definition heap_step (h : Heap) (pc : Z) : completion Heap :=
  match array_get (program_of (heap_arrays h)) pc with
  | undefined => Thrown TypeError h
  | instr =>
      match resolve (heap_env h) instr with
      | undefined => Thrown TypeError h
      | obj (prim f) =>
          with_arrays h (apply host f (stack_in (heap_arrays h)))
      | x => Done (set_arrays h (push (stack_in (heap_arrays h)) x))
      end
  end.

(** [for (; pc < program.length; ++pc) { ... } return stack;]  The loop may
    go on for ever, so the result is an option: [None] when [fuel]
    iterations did not bring the loop to its end. *)
Fixpoint heap_run_from (fuel : nat) (h : Heap) (pc : Z)
  : option (completion Heap) :=
  if pc <? array_length (program_of (heap_arrays h)) then
    match fuel with
    | O => None
    | S fuel' =>
        match heap_step h pc with
        | Done h' => heap_run_from fuel' h' (pc + 1)
        | Thrown e h' => Some (Thrown e h')
        end
    end
  else Some (Done h).

(** [run], entered at [pc] with the objects as [h], ends as [c]. *)
Definition run_gives (h : Heap) (pc : Z) (c : completion Heap) : Prop :=
  exists fuel, heap_run_from fuel h pc = Some c.

(** [run], entered at [pc] with the objects as [h], never ends. *)
Definition never_returns (h : Heap) (pc : Z) : Prop :=
  forall fuel, heap_run_from fuel h pc = None.

(** The loop seen from outside, as [Exec]: it runs the body [k] times and
    ends as [c]. *)
Inductive HeapExec : Heap -> Z -> nat -> completion Heap -> Prop :=
  | HeapExec_end h pc :
      array_length (program_of (heap_arrays h)) <= pc ->
      HeapExec h pc 0 (Done h)
  | HeapExec_throw h pc e h' :
      pc < array_length (program_of (heap_arrays h)) ->
      heap_step h pc = Thrown e h' ->
      HeapExec h pc 1 (Thrown e h')
  | HeapExec_next h pc h' k c :
      pc < array_length (program_of (heap_arrays h)) ->
      heap_step h pc = Done h' ->
      HeapExec h' (pc + 1) k c ->
      HeapExec h pc (S k) c.

(** [run(env, program, pc, stack)] with two different arrays, and with one
    array as both [program] and [stack]. *)
Definition apart (env : Env P) (program : list (jsval P)) (stack : Stack P)
  : Heap :=
  {| heap_env := env; heap_arrays := Apart program stack |}.

Definition same (env : Env P) (array : list (jsval P)) : Heap :=
  {| heap_env := env; heap_arrays := Same array |}.

(** What a completion says about the stack alone. *)
Definition heap_stack (c : completion Heap) : completion (Stack P) :=
  match c with
  | Done h => Done (stack_in (heap_arrays h))
  | Thrown e h => Thrown e (stack_in (heap_arrays h))
  end.

(** A [World] is a heap of two different arrays. *)
Definition heap_of (w : World P) : Heap := apart (env w) (program w) (stack w).

Definition on_heap (c : completion (World P)) : completion Heap :=
  match c with
  | Done w => Done (heap_of w)
  | Thrown e w => Thrown e (heap_of w)
  end.

End Aliasing.

Arguments Arrays P : clear implicits.
Arguments Heap P : clear implicits.

(** * Properties *)

(** ** The stack *)

Section StackFacts.

Context {P : Type}.
Implicit Types (s : Stack P) (v : jsval P).

Lemma array_get_nat (a : list (jsval P)) (n : nat) :
  array_get a (Z.of_nat n) = default undefined (a !! n).
Proof.
  unfold array_get.
  destruct (Z.ltb_spec (Z.of_nat n) 0) as [Hneg|_]; [lia|].
  now rewrite Nat2Z.id.
Qed.

Lemma array_get_outside (a : list (jsval P)) (i : Z) :
  i < 0 \/ array_length a <= i -> array_get a i = undefined.
Proof.
  unfold array_get, array_length. intros Hi.
  destruct (Z.ltb_spec i 0) as [_|Hpos]; [reflexivity|].
  rewrite lookup_ge_None_2; [reflexivity | lia].
Qed.

Lemma array_length_snoc (a : list (jsval P)) (x : jsval P) :
  array_length (a ++ [x]) = array_length a + 1.
Proof. unfold array_length. rewrite length_app. simpl. lia. Qed.

Lemma array_get_last s v :
  array_get (s ++ [v]) (array_length (s ++ [v]) - 1) = v.
Proof.
  rewrite array_length_snoc.
  replace (array_length s + 1 - 1) with (Z.of_nat (length s))
    by (unfold array_length; lia).
  now rewrite array_get_nat, list_lookup_middle.
Qed.

Lemma pop_snoc s v : pop (s ++ [v]) = (v, s).
Proof.
  unfold pop. now rewrite last_snoc, removelast_last.
Qed.

Lemma pop_empty : @pop P [] = (undefined, []).
Proof. reflexivity. Qed.

Lemma topitem_snoc s v : topitem (s ++ [v]) = v.
Proof. apply array_get_last. Qed.

(** C7: [push(s, v)] immediately followed by [pop] on the same stack returns
    [v] and leaves the stack, contents and depth, as it was before the
    push. *)
Theorem pop_after_push s v :
  pop (push s v) = (v, s) /\ depth (snd (pop (push s v))) = depth s.
Proof.
  unfold push. rewrite pop_snoc. split; reflexivity.
Qed.

(** C3 (as the code has it): [pop] on a non-empty stack removes and returns
    the top value; on an empty stack [pop] returns [undefined] and leaves the
    stack empty, [topitem] returns [undefined], and [topi(stack, i)] returns
    [undefined] whenever [i] is at least the depth.  None of them raises an
    error. *)
Theorem pop_topitem_topi_unchecked :
  (forall s v, pop (s ++ [v]) = (v, s))
  /\ @pop P [] = (undefined, [])
  /\ @topitem P [] = undefined
  /\ (forall s i, depth s <= i -> topi s i = undefined).
Proof.
  repeat split.
  - apply pop_snoc.
  - intros s i Hi. unfold topi. apply array_get_outside.
    unfold depth in Hi. lia.
Qed.

End StackFacts.

(** ** The environment *)

Section EnvFacts.

Context {P : Type}.
Implicit Types (env : Env P) (k : String.string) (v : Value P).

Lemma binding_lookup env k v : binding env k = Some v -> lookup env k = obj v.
Proof.
  unfold binding, lookup, env_get.
  destruct (own env !! k) as [x|]; [congruence|].
  case_bool_decide as Hk; [|discriminate].
  intros ->. unfold inherited. now rewrite bool_decide_eq_true_2.
Qed.

Lemma binding_define env k v : binding (define env k v) k = Some v.
Proof.
  unfold binding, define.
  destruct (own env !! k) eqn:Hown; simpl.
  - now rewrite lookup_insert_eq.
  - case_bool_decide as Hk; simpl.
    + now rewrite Hown.
    + now rewrite lookup_insert_eq.
Qed.

Lemma lookup_define env k v : lookup (define env k v) k = obj v.
Proof. apply binding_lookup, binding_define. Qed.

Lemma own_define_other env k v k' :
  k' <> k -> own (define env k v) !! k' = own env !! k'.
Proof.
  intros Hk. unfold define.
  destruct (own env !! k); [|case_bool_decide]; simpl;
    try reflexivity; now rewrite lookup_insert_ne.
Qed.

Lemma Object_prototype_other k :
  k ∉ Object_prototype_names -> @Object_prototype P k = undefined.
Proof.
  intros Hk. unfold Object_prototype. now rewrite bool_decide_eq_false_2.
Qed.

Lemma inherited_other (proto : option (Value P)) k :
  k ∉ "__proto__" :: "t" :: "v" :: Object_prototype_names ->
  inherited proto k = undefined.
Proof.
  intros Hk. rewrite !not_elem_of_cons in Hk.
  destruct Hk as (Hp & Ht & Hv & Hk).
  unfold inherited. destruct proto;
    rewrite ?(bool_decide_eq_false_2 _ Hp), ?(bool_decide_eq_false_2 _ Ht),
      ?(bool_decide_eq_false_2 _ Hv);
    now apply Object_prototype_other.
Qed.

(** C4 (as the code has it): [lookup(env, w)] returns the value bound to
    [w]'s symbol when a binding exists; when none exists it raises no error:
    it returns [undefined], unless the symbol is one the environment object
    inherits ([__proto__], a member of [Object.prototype], or a field [t] or
    [v] of a prototype installed through [__proto__]).  In particular
    [lookup(mk_env(), word("undefined_name"))] returns [undefined]. *)
Theorem lookup_bound_or_undefined env k :
  (forall v, binding env k = Some v -> lookup env k = obj v)
  /\ (binding env k = None ->
      k ∉ "__proto__" :: Object_prototype_names ->
      proto env = None \/ k ∉ ["t"; "v"] ->
      lookup env k = undefined)
  /\ lookup (@mk_env P) "undefined_name" = undefined.
Proof.
  split; [|split].
  - intros v. apply binding_lookup.
  - unfold binding, lookup, env_get.
    destruct (own env !! k); [discriminate|].
    intros _ Hk Hfields. rewrite not_elem_of_cons in Hk.
    destruct Hk as [Hp Hk].
    destruct (proto env) as [r|] eqn:Hproto.
    + destruct Hfields as [Hnone|Hfields]; [discriminate|].
      apply inherited_other. rewrite !not_elem_of_cons in Hfields.
      rewrite !not_elem_of_cons. tauto.
    + unfold inherited. rewrite bool_decide_eq_false_2 by exact Hp.
      now apply Object_prototype_other.
  - reflexivity.
Qed.

(** C6: [define(env, k, v)] binds [k] to [v], overwriting any prior binding:
    a later [lookup] of [k] yields the value defined last.  What [define]
    returns is the environment it was handed, with its other properties as
    they were, so calls chain.  In particular
    [lookup(define(env, "x", number(42)), word("x"))] is [number(42)]. *)
Theorem define_then_lookup env k v1 v2 :
  lookup (define env k v1) k = obj v1
  /\ lookup (define (define env k v1) k v2) k = obj v2
  /\ (forall k', k' <> k -> own (define env k v1) !! k' = own env !! k')
  /\ lookup (define env "x" (number (PNum 42))) "x" = obj (number (PNum 42)).
Proof.
  repeat split.
  - apply lookup_define.
  - apply lookup_define.
  - intros k'. apply own_define_other.
  - apply lookup_define.
Qed.

End EnvFacts.

(** ** The interpreter loop *)

Section RunFacts.

Context {P : Type} (host : P -> Stack P -> completion (Stack P)).
Implicit Types (w : World P) (pc : Z) (fuel : nat).

(** One iteration hands back the same environment and program. *)
Lemma step_frame w pc :
  env (final (step host w pc)) = env w
  /\ program (final (step host w pc)) = program w.
Proof.
  unfold step, dispatch, with_stack.
  repeat case_match; simpl; auto.
Qed.

Lemma step_Done_program w pc w' :
  step host w pc = Done w' -> program w' = program w.
Proof.
  intros H. destruct (step_frame w pc) as [_ Hp]. now rewrite H in Hp.
Qed.

Lemma run_from_frame fuel : forall w pc,
  env (final (run_from host fuel w pc)) = env w
  /\ program (final (run_from host fuel w pc)) = program w.
Proof.
  induction fuel as [|fuel IH]; intros w pc; simpl.
  - destruct (pc <? _); auto.
  - destruct (pc <? _); [|auto].
    destruct (step_frame w pc) as [He Hp].
    destruct (step host w pc) as [w'|e w']; simpl in *; [|auto].
    destruct (IH w' (pc + 1)) as [He' Hp']. split; congruence.
Qed.

(** Fuel beyond the iterations that remain is never used. *)
Lemma run_from_enough fuel : forall w pc,
  (remaining w pc <= fuel)%nat ->
  run_from host fuel w pc = run_world host w pc.
Proof.
  unfold run_world.
  induction fuel as [|fuel IH]; intros w pc Hfuel; unfold remaining.
  - unfold remaining in Hfuel.
    replace (Z.to_nat (array_length (program w) - pc)) with O by lia.
    reflexivity.
  - unfold remaining in Hfuel. simpl.
    destruct (Z.ltb_spec pc (array_length (program w))) as [Hlt|Hge].
    + destruct (Z.to_nat (array_length (program w) - pc)) as [|n] eqn:Hn;
        [lia|].
      simpl. apply Z.ltb_lt in Hlt as Hlt'. rewrite Hlt'.
      destruct (step host w pc) as [w'|e w'] eqn:Hstep; [|reflexivity].
      apply step_Done_program in Hstep.
      assert (Hn' : n = remaining w' (pc + 1))
        by (unfold remaining; rewrite Hstep; lia).
      rewrite (IH w' (pc + 1)) by lia.
      rewrite Hn'. unfold remaining. reflexivity.
    + destruct (Z.to_nat (array_length (program w) - pc)); simpl;
        apply Z.ltb_ge in Hge; now rewrite Hge.
Qed.

(** [run] unfolds as the [for] loop reads. *)
Lemma run_world_unfold w pc :
  run_world host w pc =
    if pc <? array_length (program w) then
      match step host w pc with
      | Done w' => run_world host w' (pc + 1)
      | Thrown e w' => Thrown e w'
      end
    else Done w.
Proof.
  rewrite <- (run_from_enough (S (remaining w pc))) by lia.
  simpl. destruct (pc <? _); [|reflexivity].
  destruct (step host w pc) as [w'|e w'] eqn:Hstep; [|reflexivity].
  apply run_from_enough. apply step_Done_program in Hstep.
  unfold remaining. rewrite Hstep. lia.
Qed.

Lemma run_world_end w pc :
  array_length (program w) <= pc -> run_world host w pc = Done w.
Proof.
  intros Hge. rewrite run_world_unfold.
  destruct (Z.ltb_spec pc (array_length (program w))); [lia|reflexivity].
Qed.

Lemma run_world_next w pc w' :
  pc < array_length (program w) ->
  step host w pc = Done w' ->
  run_world host w pc = run_world host w' (pc + 1).
Proof.
  intros Hlt Hstep. rewrite run_world_unfold, Hstep.
  destruct (Z.ltb_spec pc (array_length (program w))); [reflexivity|lia].
Qed.

Lemma run_world_Exec (n : nat) : forall w pc,
  remaining w pc = n ->
  exists k, Exec host w pc k (run_world host w pc) /\ (k <= n)%nat.
Proof.
  induction n as [|n IH]; intros w pc Hn; rewrite run_world_unfold;
    unfold remaining in Hn.
  - destruct (Z.ltb_spec pc (array_length (program w))); [lia|].
    exists O. split; [now constructor | lia].
  - destruct (Z.ltb_spec pc (array_length (program w))) as [Hlt|]; [|lia].
    destruct (step host w pc) as [w'|e w'] eqn:Hstep.
    + destruct (IH w' (pc + 1)) as (k & Hk & Hle).
      { unfold remaining. rewrite (step_Done_program _ _ _ Hstep). lia. }
      exists (S k). split; [|lia]. eapply Exec_next; eauto.
    + exists 1%nat. split; [|lia]. now apply Exec_throw.
Qed.

(** On two different arrays (a [World]) the loop runs the body at [pc],
    [pc + 1], ..., at most [program.length - pc] times, and the fuel of
    [run_from] is never exhausted. *)
Lemma run_world_terminates (env : Env P) (program : list (jsval P)) pc
    (stack : Stack P) :
  let w := {| env := env; program := program; stack := stack |} in
  (exists k,
      Exec host w pc k (run host env program pc stack)
      /\ Z.of_nat k <= Z.max 0 (array_length program - pc))
  /\ run host env program pc stack
     = (if pc <? array_length program then
          match step host w pc with
          | Done w' => run_world host w' (pc + 1)
          | Thrown e w' => Thrown e w'
          end
        else Done w)
  /\ (forall extra, run_from host (remaining w pc + extra) w pc
                   = run host env program pc stack).
Proof.
  intros w. split; [|split].
  - destruct (run_world_Exec (remaining w pc) w pc eq_refl) as (k & Hk & Hle).
    exists k. split; [exact Hk|]. unfold remaining in Hle. simpl in Hle. lia.
  - apply (run_world_unfold w pc).
  - intros extra. apply run_from_enough. lia.
Qed.

(** On two different arrays (a [World]) a run hands back the environment
    and the program as it received them. *)
Lemma run_world_frame (env0 : Env P) (program0 : list (jsval P)) pc
    (stack0 : Stack P) :
  env (final (run host env0 program0 pc stack0)) = env0
  /\ program (final (run host env0 program0 pc stack0)) = program0.
Proof.
  apply (run_from_frame _ {| env := env0; program := program0;
                             stack := stack0 |}).
Qed.





(** C2: a word instruction is resolved by one [lookup]; when that yields a
    word, the word is not looked up again but pushed as it is.  In
    particular, in an environment that binds ["a"] to [word("b")], running
    [[word("a")]] leaves the stack [[word("b")]]. *)
Theorem word_resolved_once :
  (forall w pc a b,
      array_get (program w) pc = obj (word a) ->
      lookup (env w) a = obj (word b) ->
      step host w pc = Done (set_stack w (push (stack w) (obj (word b)))))
  /\ (forall env : Env P,
      lookup env "a" = obj (word "b") ->
      run host env [obj (word "a")] 0 []
      = Done {| env := env; program := [obj (word "a")];
                stack := [obj (word "b")] |}).
Proof.
  split.
  - intros w pc a b Hinstr Halias.
    unfold step. rewrite Hinstr. simpl. now rewrite Halias.
  - intros env Halias. unfold run.
    erewrite run_world_next; [apply run_world_end; reflexivity | reflexivity |].
    unfold step. simpl. now rewrite Halias.
Qed.

End RunFacts.

(** ** The standard library *)

Section StdlibFacts.

Implicit Types (env : Env stdprim) (rest : Stack stdprim).

Lemma arith_numbers (op : binop) rest (x y : float) :
  Stdlib.arith op (rest ++ [obj (number (PNum x)); obj (number (PNum y))])
  = Done (rest ++ [obj (number (PNum (Stdlib.float_binop op x y)))]).
Proof.
  unfold Stdlib.arith.
  change (rest ++ [obj (number (PNum x)); obj (number (PNum y))])
    with (rest ++ [obj (number (PNum x))] ++ [obj (number (PNum y))]).
  rewrite app_assoc, !pop_snoc. simpl. now destruct op.
Qed.

(** C5: run from [pc = 0] on an empty stack, in an environment where ["+"]
    is the standard library's addition, the program
    [[number(1), number(2), word("+")]] returns the stack [[number(3)]]. *)
Theorem smoke_returns_three env :
  lookup env "+" = obj (prim PrimAdd) ->
  Stdlib.run env
    [obj (number (PNum 1)); obj (number (PNum 2)); obj (word "+")] 0 []
  = Done {| env := env;
            program := [obj (number (PNum 1)); obj (number (PNum 2));
                        obj (word "+")];
            stack := [obj (number (PNum 3))] |}.
Proof.
  intros Hplus. unfold Stdlib.run, run.
  erewrite run_world_next; [|reflexivity|reflexivity].
  erewrite run_world_next; [|reflexivity|reflexivity].
  erewrite run_world_next; [apply run_world_end; reflexivity|reflexivity|].
  unfold step. simpl. rewrite Hplus. reflexivity.
Qed.

(** C10: with [number(x)] below [number(y)] on top of the stack, the
    standard library's ["-"] replaces the two by [number(x - y)] and its
    ["/"] by [number(x / y)]: the element popped second is the left operand,
    and the stack below the two is left as it was. *)
Theorem sub_div_operand_order rest (x y : float) :
  lookup Stdlib.test_env "-" = obj (prim PrimSub)
  /\ lookup Stdlib.test_env "/" = obj (prim PrimDiv)
  /\ apply Stdlib.host PrimSub
       (rest ++ [obj (number (PNum x)); obj (number (PNum y))])
     = Done (rest ++ [obj (number (PNum (PrimFloat.sub x y)))])
  /\ apply Stdlib.host PrimDiv
       (rest ++ [obj (number (PNum x)); obj (number (PNum y))])
     = Done (rest ++ [obj (number (PNum (PrimFloat.div x y)))]).
Proof.
  repeat split; try reflexivity; apply arith_numbers.
Qed.

(** The distance test of the source: the 3-4-5 triangle. *)
Example distance_3_4_5 :
  Stdlib.distance 0 0 3 4
  = Done {| env := Stdlib.test_env;
            program := [ obj (number (PNum 0)); obj (number (PNum 3));
                         obj (word "-"); obj (word "dup"); obj (word "*");
                         obj (number (PNum 0)); obj (number (PNum 4));
                         obj (word "-"); obj (word "dup"); obj (word "*");
                         obj (word "+"); obj (word "sqrt") ];
            stack := [obj (number (PNum 5))] |}.
Proof. reflexivity. Qed.

End StdlibFacts.

(** ** Instances on the standard library *)

Section Instances.

Local Abbreviation one := (@obj stdprim (number (PNum 1))).



Lemma word_resolved_once_witness :
  let env :=
    define (define mk_env "b" (number (PNum 7))) "a" (word "b") in
  step Stdlib.host
    {| env := env; program := [one; obj (word "a")]; stack := [one] |} 1
  = Done {| env := env; program := [one; obj (word "a")];
            stack := [one; obj (word "b")] |}
  /\ Stdlib.run env [obj (word "a")] 0 []
     = Done {| env := env; program := [obj (word "a")];
               stack := [obj (word "b")] |}.
Proof.
  split.
  - apply (proj1 (word_resolved_once Stdlib.host)
             {| env := define (define mk_env "b" (number (PNum 7)))
                         "a" (word "b");
                program := [one; obj (word "a")]; stack := [one] |}
             1 "a" "b"); reflexivity.
  - apply (proj2 (word_resolved_once Stdlib.host)). reflexivity.
Defined.

(** [pop] on an empty stack returns the [undefined] sentinel. *)
Lemma pop_empty_returns_undefined :
  pop ([] : Stack stdprim) = (undefined, []).
Proof. reflexivity. Qed.

Lemma pop_topitem_topi_unchecked_witness :
  depth [one; one] <= 2 /\ topi [one; one] 2 = undefined.
Proof.
  assert (Hdepth : depth [one; one] <= 2) by (vm_compute; discriminate).
  split; [exact Hdepth|].
  exact (proj2 (proj2 (proj2 pop_topitem_topi_unchecked)) [one; one] 2 Hdepth).
Defined.

(** [lookup] of a name that was never defined returns [undefined]. *)
Lemma lookup_unbound_returns_undefined :
  lookup (mk_env : Env stdprim) "undefined_name" = undefined.
Proof. reflexivity. Qed.

Lemma lookup_bound_or_undefined_witness :
  lookup Stdlib.test_env "dup" = obj (prim PrimDup)
  /\ lookup Stdlib.test_env "swap" = undefined
  /\ lookup Stdlib.test_env "t" = undefined
  /\ lookup (define Stdlib.test_env "__proto__" (number (PNum 1))) "swap"
     = undefined.
Proof.
  split; [|split; [|split]].
  - apply (proj1 (lookup_bound_or_undefined Stdlib.test_env "dup")).
    reflexivity.
  - apply (proj1 (proj2 (lookup_bound_or_undefined Stdlib.test_env "swap"))).
    + reflexivity.
    + apply (bool_decide_eq_false_1 _). reflexivity.
    + left. reflexivity.
  - apply (proj1 (proj2 (lookup_bound_or_undefined Stdlib.test_env "t"))).
    + reflexivity.
    + apply (bool_decide_eq_false_1 _). reflexivity.
    + left. reflexivity.
  - apply (proj1 (proj2 (lookup_bound_or_undefined
                           (define Stdlib.test_env "__proto__"
                              (number (PNum 1))) "swap"))).
    + reflexivity.
    + apply (bool_decide_eq_false_1 _). reflexivity.
    + right. apply (bool_decide_eq_false_1 _). reflexivity.
Defined.

Lemma smoke_returns_three_witness :
  lookup (Stdlib.load_stdlib_ext mk_env) "+" = obj (prim PrimAdd)
  /\ Stdlib.smoke
     = Done {| env := Stdlib.load_stdlib_ext mk_env;
               program := [obj (number (PNum 1)); obj (number (PNum 2));
                           obj (word "+")];
               stack := [obj (number (PNum 3))] |}.
Proof.
  split; [reflexivity|].
  apply (smoke_returns_three (Stdlib.load_stdlib_ext mk_env)). reflexivity.
Defined.

Lemma define_then_lookup_witness :
  own (define (mk_env : Env stdprim) "x" (number (PNum 42))) !! "y"
  = own (mk_env : Env stdprim) !! "y".
Proof.
  apply (proj1 (proj2 (proj2
           (define_then_lookup mk_env "x" (number (PNum 42))
              (number (PNum 42))))) "y").
  discriminate.
Defined.

End Instances.

(** * Further properties of the source *)

(** ** The stack helpers *)

Section MoreStackFacts.

Context {P : Type}.
Implicit Types (s : Stack P) (v : jsval P).

Lemma depth_snoc s v : depth (s ++ [v]) = depth s + 1.
Proof. apply array_length_snoc. Qed.

Lemma topi_reverse s i :
  0 <= i < depth s -> reverse s !! Z.to_nat i = Some (topi s i).
Proof.
  unfold depth, array_length. intros Hi.
  rewrite reverse_lookup by lia.
  unfold topi, array_length.
  replace (Z.of_nat (length s) - 1 - i)
    with (Z.of_nat (length s - S (Z.to_nat i))) by lia.
  rewrite array_get_nat.
  destruct (lookup_lt_is_Some_2 s (length s - S (Z.to_nat i))) as [x Hx];
    [lia|].
  now rewrite Hx.
Qed.

(** [topi(stack, i)] counts from the top: [topi(stack, 0)] is
    [topitem(stack)], and for [0 <= i < depth] it is the element [i] places
    below the top, the [i]-th of the stack read backwards.  A negative [i]
    reads past the end of the array and yields [undefined]. *)
Theorem topi_counts_from_top s i :
  topi s 0 = topitem s
  /\ (0 <= i < depth s -> reverse s !! Z.to_nat i = Some (topi s i))
  /\ (i < 0 -> topi s i = undefined).
Proof.
  split; [|split].
  - unfold topi, topitem. f_equal. lia.
  - apply topi_reverse.
  - intros Hi. unfold topi. apply array_get_outside. right. lia.
Qed.

(** [topitem] reads what [pop] would remove, on every stack, the empty one
    included (both give [undefined]); [pop] lowers the depth by one except
    on the empty stack, and [push] raises it by one. *)
Theorem topitem_pop_depth s v :
  topitem s = fst (pop s)
  /\ depth (snd (pop s)) = Z.max 0 (depth s - 1)
  /\ depth (push s v) = depth s + 1.
Proof.
  split; [|split].
  - destruct s as [|x s' _] using rev_ind; [reflexivity|].
    now rewrite topitem_snoc, pop_snoc.
  - destruct s as [|x s' _] using rev_ind; [reflexivity|].
    rewrite pop_snoc, depth_snoc. simpl. unfold depth, array_length. lia.
  - apply depth_snoc.
Qed.

(** Pushing back what [pop] removed restores a non-empty stack.  On the
    empty stack it does not: [pop] hands out [undefined], and pushing that
    leaves a stack of depth one. *)
Theorem push_after_pop s :
  (s <> [] -> push (snd (pop s)) (fst (pop s)) = s)
  /\ push (snd (pop ([] : Stack P))) (fst (pop ([] : Stack P)))
     = [undefined].
Proof.
  split; [|reflexivity].
  destruct s as [|x s' _] using rev_ind; [congruence|].
  intros _. now rewrite pop_snoc.
Qed.

End MoreStackFacts.

(** ** The environment *)

Section MoreEnvFacts.

Context {P : Type}.
Implicit Types (env : Env P) (k : String.string) (v : Value P).

Lemma define_ordinary env k v :
  k <> "__proto__" ->
  define env k v = {| own := <[k := v]> (own env); proto := proto env |}.
Proof.
  intros Hk. unfold define.
  destruct (own env !! k); [reflexivity|].
  now rewrite bool_decide_eq_false_2.
Qed.

Lemma lookup_define_ne env k v k' :
  k <> "__proto__" -> k' <> k ->
  lookup (define env k v) k' = lookup env k'.
Proof.
  intros Hk Hk'. rewrite define_ordinary by exact Hk.
  unfold lookup, env_get. simpl. now rewrite lookup_insert_ne.
Qed.

Lemma define_same env k v : own env !! k = Some v -> define env k v = env.
Proof.
  intros Hown. unfold define. rewrite Hown, insert_id by exact Hown.
  now destruct env.
Qed.

(** A [define] of a key other than [__proto__] leaves the [lookup] of every
    other key as it was. *)
Theorem lookup_define_other env k v k' :
  k <> "__proto__" -> k' <> k ->
  lookup (define env k v) k' = lookup env k'.
Proof. apply lookup_define_ne. Qed.

(** Only the last [define] of a key counts: defining [k] twice leaves the
    environment exactly as the second [define] alone would (for every key,
    [__proto__] included), and defining it again with the same value changes
    nothing. *)
Theorem define_overwrites env k v1 v2 :
  define (define env k v1) k v2 = define env k v2
  /\ define (define env k v2) k v2 = define env k v2.
Proof.
  assert (H : forall u1 u2, define (define env k u1) k u2 = define env k u2).
  { intros u1 u2. unfold define at 2 3.
    destruct (own env !! k) eqn:Hown.
    - unfold define. simpl. rewrite lookup_insert_eq.
      now rewrite insert_insert_eq.
    - case_bool_decide as Hk.
      + unfold define. simpl. rewrite Hown.
        now rewrite bool_decide_eq_true_2.
      + unfold define. simpl. rewrite lookup_insert_eq.
        now rewrite insert_insert_eq. }
  split; apply H.
Qed.

(** Definitions of two different keys, neither of them [__proto__], can be
    made in either order. *)
Theorem define_commutes env k1 v1 k2 v2 :
  k1 <> k2 -> k1 <> "__proto__" -> k2 <> "__proto__" ->
  define (define env k1 v1) k2 v2 = define (define env k2 v2) k1 v1.
Proof.
  intros Hne H1 H2. rewrite !define_ordinary by assumption. simpl.
  f_equal. now apply insert_insert_ne.
Qed.

(** The key [__proto__] is not an ordinary binding.  On an environment with
    no such own property, [define(env, "__proto__", v)] creates no property:
    it makes [v] the prototype of the environment object, and from then on
    the names ["t"] and ["v"], unless defined, look up as the tag and the
    payload of [v], which are not tagged objects. *)
Theorem define_proto_installs_prototype env v :
  own env !! "__proto__" = None ->
  own (define env "__proto__" v) = own env
  /\ lookup (define env "__proto__" v) "__proto__" = obj v
  /\ (own env !! "t" = None ->
      lookup (define env "__proto__" v) "t" = raw (field_t v))
  /\ (own env !! "v" = None ->
      lookup (define env "__proto__" v) "v" = raw (field_v v)).
Proof.
  intros Hown. unfold define. rewrite Hown. simpl.
  split; [reflexivity|]. unfold lookup, env_get. simpl. rewrite Hown.
  split; [reflexivity|]. split; intros ->; reflexivity.
Qed.

(** On a fresh environment the names of [Object.prototype]'s members are
    not unbound: [lookup] finds the inherited host object. *)
Theorem lookup_inherited_name k :
  k ∈ Object_prototype_names -> lookup (@mk_env P) k = builtin k.
Proof.
  intros Hk. unfold lookup, env_get, mk_env. simpl.
  rewrite lookup_empty.
  assert (Hne : k <> "__proto__").
  { intros ->. revert Hk. apply (bool_decide_eq_false_1 _). reflexivity. }
  rewrite bool_decide_eq_false_2 by exact Hne.
  unfold Object_prototype. now rewrite bool_decide_eq_true_2.
Qed.

End MoreEnvFacts.

(** ** The interpreter loop, instruction by instruction *)

Section MoreRunFacts.

Context {P : Type} (host : P -> Stack P -> completion (Stack P)).
Implicit Types (w : World P) (pc : Z) (s : Stack P).

Lemma set_stack_same w : set_stack w (stack w) = w.
Proof. now destruct w. Qed.

Lemma step_exec w pc :
  step host w pc
  = with_stack w (exec host (env w) (array_get (program w) pc) (stack w)).
Proof.
  unfold step, exec.
  destruct (array_get (program w) pc) as [[]|[]|]; simpl;
    rewrite ?set_stack_same; try reflexivity.
  destruct (lookup (env w) v) as [[]|[]|]; simpl;
    rewrite ?set_stack_same; reflexivity.
Qed.

Lemma run_world_fold (n : nat) : forall w pc,
  remaining w pc = n -> 0 <= pc ->
  stack_of (run_world host w pc)
  = run_list host (env w) (drop (Z.to_nat pc) (program w)) (stack w).
Proof.
  induction n as [|n IH]; intros w pc Hn Hpc; unfold remaining in Hn.
  - rewrite run_world_end by lia.
    rewrite drop_ge by (unfold array_length in Hn; lia). reflexivity.
  - assert (Hlt : pc < array_length (program w)) by lia.
    destruct (lookup_lt_is_Some_2 (program w) (Z.to_nat pc)) as [x Hx];
      [unfold array_length in Hlt; lia|].
    rewrite (drop_S _ _ _ Hx). simpl.
    assert (Hget : array_get (program w) pc = x).
    { rewrite <- (Z2Nat.id pc) at 1 by lia. now rewrite array_get_nat, Hx. }
    rewrite run_world_unfold.
    apply Z.ltb_lt in Hlt as Hlt'. rewrite Hlt'.
    rewrite step_exec, Hget.
    destruct (exec host (env w) x (stack w)) as [s'|e s']; simpl;
      [|reflexivity].
    rewrite (IH (set_stack w s') (pc + 1)); [|unfold remaining; simpl; lia|lia].
    simpl. now replace (Z.to_nat (pc + 1)) with (S (Z.to_nat pc)) by lia.
Qed.

Lemma run_list_app (env : Env P) (p q : list (jsval P)) : forall s,
  run_list host env (p ++ q) s
  = match run_list host env p s with
    | Done s1 => run_list host env q s1
    | Thrown e s1 => Thrown e s1
    end.
Proof.
  induction p as [|i p IH]; intros s; simpl; [reflexivity|].
  destruct (exec host env i s); [apply IH | reflexivity].
Qed.

Lemma run_fold_stack (env : Env P) (program : list (jsval P)) pc s :
  0 <= pc ->
  stack_of (run host env program pc s)
  = run_list host env (drop (Z.to_nat pc) program) s.
Proof. intros Hpc. unfold run. now rewrite (run_world_fold _ _ _ eq_refl). Qed.

Lemma run_fold_stack_0 (env : Env P) (program : list (jsval P)) s :
  stack_of (run host env program 0 s) = run_list host env program s.
Proof. now rewrite run_fold_stack, drop_0. Qed.

(** On two different arrays: what the run does to the stack is a fold over
    the instructions from [pc] on. *)
Lemma run_world_is_fold (env : Env P) (program : list (jsval P)) pc s :
  0 <= pc ->
  stack_of (run host env program pc s)
  = run_list host env (drop (Z.to_nat pc) program) s
  /\ stack_of (run host env program pc s)
     = stack_of (run host env (drop (Z.to_nat pc) program) 0 s).
Proof.
  intros Hpc. rewrite run_fold_stack by exact Hpc.
  now rewrite run_fold_stack_0.
Qed.

Lemma run_world_negative w pc :
  pc < 0 -> run_world host w pc = Thrown TypeError w.
Proof.
  intros Hpc. rewrite run_world_unfold.
  assert (Hlt : pc < array_length (program w)) by (unfold array_length; lia).
  apply Z.ltb_lt in Hlt. rewrite Hlt. unfold step.
  now rewrite array_get_outside by (left; exact Hpc).
Qed.

(** Outside the program: entered at or beyond the end, [run] returns at once
    with everything as it was; entered at a negative [pc], the loop
    condition holds, [program[pc]] is [undefined], and [run] throws at once,
    even on an empty program. *)
Theorem run_outside_program (env : Env P) (program : list (jsval P)) pc s :
  let w := {| env := env; program := program; stack := s |} in
  (array_length program <= pc -> run host env program pc s = Done w)
  /\ (pc < 0 -> run host env program pc s = Thrown TypeError w).
Proof.
  intros w. split; intros Hpc.
  - now apply run_world_end.
  - now apply run_world_negative.
Qed.

(** On two different arrays: running [p ++ q] is running [p], then [q]. *)
Lemma run_world_app (env : Env P) (p q : list (jsval P)) s :
  stack_of (run host env (p ++ q) 0 s)
  = match stack_of (run host env p 0 s) with
    | Done s1 => stack_of (run host env q 0 s1)
    | Thrown e s1 => Thrown e s1
    end.
Proof.
  rewrite !run_fold_stack_0, run_list_app.
  destruct (run_list host env p s); [|reflexivity].
  now rewrite run_fold_stack_0.
Qed.

Lemma exec_literal (env : Env P) (i : jsval P) s :
  is_literal i = true -> exec host env i s = Done (s ++ [i]).
Proof. destruct i as [[]|[]|]; simpl; intros H; try discriminate; auto. Qed.

(** On two different arrays: literals are pushed in order. *)
Lemma run_world_literals (env : Env P) (lits : list (jsval P)) s :
  forallb is_literal lits = true ->
  stack_of (run host env lits 0 s) = Done (s ++ lits).
Proof.
  intros Hlits. rewrite run_fold_stack_0. revert s Hlits.
  induction lits as [|i lits IH]; intros s Hlits; simpl.
  - now rewrite app_nil_r.
  - simpl in Hlits. apply andb_prop in Hlits as [Hi Hlits].
    rewrite exec_literal by exact Hi. rewrite IH by exact Hlits.
    now rewrite <- app_assoc.
Qed.

Lemma exec_resolved (env env' : Env P) (i : jsval P) s :
  is_word (resolve env i) = false ->
  exec host env i s = exec host env' (resolve env i) s.
Proof.
  destruct i as [[]|[a|a|a|f]|]; try reflexivity.
  simpl. destruct (lookup env a) as [[]|[]|]; simpl; intros H;
    try discriminate; reflexivity.
Qed.

(** On two different arrays: words can be replaced by their bindings. *)
Lemma run_world_words_resolved (env env' : Env P) (p : list (jsval P)) s :
  forallb (fun i => negb (is_word (resolve env i))) p = true ->
  stack_of (run host env p 0 s)
  = stack_of (run host env' (map (resolve env) p) 0 s).
Proof.
  intros Hp. rewrite !run_fold_stack_0. revert s Hp.
  induction p as [|i p IH]; intros s Hp; simpl; [reflexivity|].
  simpl in Hp. apply andb_prop in Hp as [Hi Hp].
  apply negb_true_iff in Hi.
  rewrite (exec_resolved env env' i s Hi).
  destruct (exec host env' (resolve env i) s); [now apply IH | reflexivity].
Qed.

End MoreRunFacts.

(** ** The standard library's primitives *)

Section MoreStdlibFacts.

Implicit Types (env : Env stdprim) (s rest : Stack stdprim)
  (x y v : jsval stdprim).

Lemma arith_two (op : binop) rest x y :
  Stdlib.arith op (rest ++ [x; y])
  = match prop_v x, prop_v y with
    | Some xv, Some yv =>
        Done (rest ++ [obj (number (Stdlib.js_binop op xv yv))])
    | _, _ => Thrown TypeError rest
    end.
Proof.
  unfold Stdlib.arith.
  change (rest ++ [x; y]) with (rest ++ [x] ++ [y]).
  rewrite app_assoc, !pop_snoc.
  destruct (prop_v x); [destruct (prop_v y)|]; reflexivity.
Qed.

Lemma arith_short (op : binop) v :
  Stdlib.arith op [] = Thrown TypeError []
  /\ Stdlib.arith op [v] = Thrown TypeError [].
Proof. split; reflexivity. Qed.

Lemma arith_Done_inv (op : binop) s s' :
  Stdlib.arith op s = Done s' ->
  exists rest x y xv yv,
    s = rest ++ [x; y]
    /\ prop_v x = Some xv /\ prop_v y = Some yv
    /\ s' = rest ++ [obj (number (Stdlib.js_binop op xv yv))].
Proof.
  destruct s as [|y s1 _] using rev_ind;
    [intros H; now rewrite (proj1 (arith_short op undefined)) in H|].
  destruct s1 as [|x rest _] using rev_ind;
    [intros H; simpl in H;
     now rewrite (proj2 (arith_short op y)) in H|].
  rewrite <- app_assoc. simpl. rewrite arith_two.
  destruct (prop_v x) as [xv|] eqn:Hx; [|discriminate].
  destruct (prop_v y) as [yv|] eqn:Hy; [|discriminate].
  intros [= <-]. now exists rest, x, y, xv, yv.
Qed.

(** The four operators succeed exactly on a stack whose two top elements
    both have a readable field [v], that is, are not [undefined]: the two
    are replaced by one number-tagged value and what lies below is kept. *)
Theorem arith_succeeds_iff (op : binop) s s' :
  Stdlib.arith op s = Done s'
  <-> exists rest x y xv yv,
        s = rest ++ [x; y]
        /\ prop_v x = Some xv /\ prop_v y = Some yv
        /\ s' = rest ++ [obj (number (Stdlib.js_binop op xv yv))].
Proof.
  split.
  - apply arith_Done_inv.
  - intros (rest & x & y & xv & yv & -> & Hx & Hy & ->).
    now rewrite arith_two, Hx, Hy.
Qed.

(** On a stack too short the operators do not report an underflow: they
    throw a [TypeError] after popping what there was, so a lone operand is
    lost; and an [undefined] among the two top elements makes them throw
    with both removed. *)
Theorem arith_throws_after_popping (op : binop) rest x y v :
  Stdlib.arith op [] = Thrown TypeError []
  /\ Stdlib.arith op [v] = Thrown TypeError []
  /\ (x = undefined \/ y = undefined ->
      Stdlib.arith op (rest ++ [x; y]) = Thrown TypeError rest).
Proof.
  split; [|split]; try reflexivity.
  intros [-> | ->]; rewrite arith_two; simpl; [reflexivity|].
  now destruct (prop_v x).
Qed.

(** ["+"] on two strings concatenates them, and the result is tagged as a
    number: the constructors' promise that a number-tagged value holds a
    number is not kept by the standard library. *)
Theorem add_concatenates_strings rest (a b : String.string) :
  Stdlib.arith Add (rest ++ [obj (string a); obj (string b)])
  = Done (rest ++ [obj (number (PStr (String.append a b)))])
  /\ prop_t (obj (number (PStr (String.append a b)) : Value stdprim))
     = Some (PStr "number").
Proof. split; [now rewrite arith_two | reflexivity]. Qed.

Lemma dup_snoc s v : Stdlib.dup (s ++ [v]) = Done (s ++ [v; v]).
Proof.
  unfold Stdlib.dup, push. rewrite topitem_snoc. now rewrite <- app_assoc.
Qed.

(** ["dup"] never throws and always deepens the stack by one: it pushes a
    second copy of the top element, and on an empty stack it pushes
    [undefined]. *)
Theorem dup_duplicates s v :
  Stdlib.dup (s ++ [v]) = Done (s ++ [v; v])
  /\ Stdlib.dup [] = Done [undefined]
  /\ (exists s', Stdlib.dup s = Done s' /\ depth s' = depth s + 1).
Proof.
  split; [apply dup_snoc|]. split; [reflexivity|].
  eexists. split; [reflexivity|]. apply depth_snoc.
Qed.

Lemma sqrt_snoc rest x :
  Stdlib.sqrt (rest ++ [x])
  = match prop_v x with
    | Some xv => Done (rest ++ [obj (number (Stdlib.js_sqrt xv))])
    | None => Thrown TypeError rest
    end.
Proof. unfold Stdlib.sqrt. now rewrite pop_snoc. Qed.

(** ["sqrt"] replaces a number on top by its square root and keeps what
    lies below; on an empty stack, or with [undefined] on top, it throws,
    having popped. *)
Theorem sqrt_top rest (a : float) :
  Stdlib.sqrt (rest ++ [obj (number (PNum a))])
  = Done (rest ++ [obj (number (PNum (PrimFloat.sqrt a)))])
  /\ Stdlib.sqrt [] = Thrown TypeError []
  /\ Stdlib.sqrt (rest ++ [undefined]) = Thrown TypeError rest.
Proof.
  split; [now rewrite sqrt_snoc|]. split; [reflexivity|].
  now rewrite sqrt_snoc.
Qed.

(** A primitive of the standard library that succeeds on a non-empty stack
    does the same with anything underneath and leaves that untouched. *)
Theorem host_frame (f : stdprim) rest s s' :
  s <> [] ->
  Stdlib.host f s = Done s' ->
  Stdlib.host f (rest ++ s) = Done (rest ++ s').
Proof.
  intros Hs Hdone.
  assert (Harith : forall op, Stdlib.arith op s = Done s' ->
                     Stdlib.arith op (rest ++ s) = Done (rest ++ s')).
  { intros op H. apply arith_Done_inv in H
      as (r & x & y & xv & yv & -> & Hx & Hy & ->).
    rewrite !app_assoc, arith_two, Hx, Hy. reflexivity. }
  destruct s as [|v r _] using rev_ind; [congruence|].
  destruct f; simpl in *; try now apply Harith.
  - rewrite dup_snoc in Hdone. injection Hdone as <-.
    now rewrite !app_assoc, dup_snoc, <- !app_assoc.
  - rewrite sqrt_snoc in Hdone. rewrite app_assoc, sqrt_snoc.
    destruct (prop_v v); [|discriminate].
    injection Hdone as <-. now rewrite app_assoc.
Qed.

End MoreStdlibFacts.

(** ** Programs on the standard library, and its loaders *)

Section StdlibPrograms.

Implicit Types (env : Env stdprim) (s : Stack stdprim).

(** On two different arrays: a binary expression in postfix order. *)
Lemma run_world_binary_expression env (op : binop) (x y : float) s :
  lookup env (operator_name op) = obj (prim (operator_prim op)) ->
  stack_of (Stdlib.run env
              [obj (number (PNum x)); obj (number (PNum y));
               obj (word (operator_name op))] 0 s)
  = Done (s ++ [obj (number (PNum (Stdlib.float_binop op x y)))]).
Proof.
  intros Hop. unfold Stdlib.run. rewrite run_fold_stack_0.
  cbn [run_list exec resolve]. rewrite Hop. unfold apply, push.
  rewrite <- app_assoc. simpl.
  assert (Hhost : Stdlib.host (operator_prim op) = Stdlib.arith op)
    by now destruct op.
  rewrite Hhost, arith_two. simpl. now destruct op.
Qed.

(** [tests.distance(x1, y1, x2, y2)] returns the single number
    [sqrt((x1 - x2) * (x1 - x2) + (y1 - y2) * (y1 - y2))], computed in that
    order in binary64 arithmetic. *)
Theorem distance_formula (x1 y1 x2 y2 : float) :
  stack_of (Stdlib.distance x1 y1 x2 y2)
  = Done [obj (number (PNum
            (PrimFloat.sqrt
               (PrimFloat.add
                  (PrimFloat.mul (PrimFloat.sub x1 x2) (PrimFloat.sub x1 x2))
                  (PrimFloat.mul (PrimFloat.sub y1 y2)
                     (PrimFloat.sub y1 y2))))))].
Proof. reflexivity. Qed.

Lemma load_stdlib_own env :
  own (Stdlib.load_stdlib env)
  = <["/" := prim PrimDiv]> (<["*" := prim PrimMul]>
      (<["-" := prim PrimSub]> (<["+" := prim PrimAdd]> (own env))))
  /\ proto (Stdlib.load_stdlib env) = proto env.
Proof.
  unfold Stdlib.load_stdlib. now rewrite !define_ordinary by discriminate.
Qed.

(** [load_stdlib] binds the four operators whatever the environment held
    under those names, leaves every other name as it was, and loading twice
    is the same as loading once. *)
Theorem load_stdlib_binds env :
  (forall op, lookup (Stdlib.load_stdlib env) (operator_name op)
              = obj (prim (operator_prim op)))
  /\ (forall k, k ∉ ["+"; "-"; "*"; "/"] ->
        lookup (Stdlib.load_stdlib env) k = lookup env k)
  /\ Stdlib.load_stdlib (Stdlib.load_stdlib env) = Stdlib.load_stdlib env.
Proof.
  split; [|split].
  - intros op. unfold Stdlib.load_stdlib.
    destruct op; simpl;
      rewrite ?lookup_define_ne by discriminate; apply lookup_define.
  - intros k Hk. rewrite !not_elem_of_cons in Hk.
    destruct Hk as (H1 & H2 & H3 & H4 & _).
    unfold Stdlib.load_stdlib.
    now rewrite !lookup_define_ne by (discriminate || assumption).
  - destruct (load_stdlib_own env) as [Hown Hproto].
    unfold Stdlib.load_stdlib at 1.
    rewrite (define_same (Stdlib.load_stdlib env) "+")
      by (rewrite Hown; now simplify_map_eq).
    rewrite (define_same (Stdlib.load_stdlib env) "-")
      by (rewrite Hown; now simplify_map_eq).
    rewrite (define_same (Stdlib.load_stdlib env) "*")
      by (rewrite Hown; now simplify_map_eq).
    now rewrite (define_same (Stdlib.load_stdlib env) "/")
      by (rewrite Hown; now simplify_map_eq).
Qed.

(** The extension made through [stddefs] adds ["dup"] and ["sqrt"] on top
    of the four operators, which stay bound, and touches no other name. *)
Theorem stddefs_extends env :
  (forall op, lookup (Stdlib.load_stdlib_ext env) (operator_name op)
              = obj (prim (operator_prim op)))
  /\ lookup (Stdlib.load_stdlib_ext env) "dup" = obj (prim PrimDup)
  /\ lookup (Stdlib.load_stdlib_ext env) "sqrt" = obj (prim PrimSqrt)
  /\ (forall k, k ∉ ["+"; "-"; "*"; "/"; "dup"; "sqrt"] ->
        lookup (Stdlib.load_stdlib_ext env) k = lookup env k).
Proof.
  unfold Stdlib.load_stdlib_ext, Stdlib.stddefs, Stdlib.dup_sqrt_defns,
    Stdlib.load_stdlib.
  split; [|split; [|split]].
  - intros op. destruct op; simpl;
      rewrite ?lookup_define_ne by discriminate; apply lookup_define.
  - rewrite ?lookup_define_ne by discriminate. apply lookup_define.
  - apply lookup_define.
  - intros k Hk. rewrite !not_elem_of_cons in Hk.
    destruct Hk as (H1 & H2 & H3 & H4 & H5 & H6 & _).
    now rewrite !lookup_define_ne by (discriminate || assumption).
Qed.

End StdlibPrograms.

(** ** Displaying the stack *)

Section ShowFacts.

Context {P : Type}.
Variable ToString : payload P -> String.string.
Variable JSON_stringify : String.string -> String.string.
Implicit Types (stack : Stack P) (console lines : list String.string).

Lemma show_count_le stack n :
  Z.of_nat (Z.to_nat (show_count stack n)) <= depth stack.
Proof.
  unfold show_count, depth, array_length.
  destruct n as [[| |]|]; lia.
Qed.

Lemma show_loop_lines stack (count : nat) : forall i console lines,
  0 <= i -> i + Z.of_nat count <= depth stack ->
  Forall2 (writes ToString JSON_stringify)
    (take count (drop (Z.to_nat i) (reverse stack))) lines ->
  show_loop ToString JSON_stringify count i stack console
  = Done (console ++ lines).
Proof.
  induction count as [|count IH]; intros i console lines Hi Hle Hlines.
  - rewrite take_0 in Hlines. apply Forall2_nil_inv_l in Hlines as ->.
    simpl. now rewrite app_nil_r.
  - rewrite (drop_S _ (topi stack i)) in Hlines by (apply topi_reverse; lia).
    simpl in Hlines.
    apply Forall2_cons_inv_l in Hlines as (line & lines' & Hline & Hrest & ->).
    simpl. unfold show_item. unfold writes in Hline. rewrite Hline.
    rewrite (IH (i + 1) (console ++ [line]) lines'); [|lia|lia|].
    + now rewrite <- app_assoc.
    + now replace (Z.to_nat (i + 1)) with (S (Z.to_nat i)) by lia.
Qed.

(** [show(stack, n)] writes one line per element for the top
    [min(n || 20, depth)] elements, topmost first, after what the console
    already held, provided none of those elements is [undefined]. *)
Theorem show_top_first stack (n : option Z) console lines :
  Forall2 (writes ToString JSON_stringify)
    (take (Z.to_nat (show_count stack n)) (reverse stack)) lines ->
  show ToString JSON_stringify stack n console = Done (console ++ lines).
Proof.
  intros Hlines. unfold show. apply show_loop_lines; [lia| |exact Hlines].
  pose proof (show_count_le stack n). lia.
Qed.

(** The count of [show]: asking for 0 elements is asking for the default
    20, since 0 is falsy; a negative count writes nothing; and an empty
    stack writes nothing whatever is asked. *)
Theorem show_count_edges stack (n : option Z) console :
  show ToString JSON_stringify stack (Some 0) console
  = show ToString JSON_stringify stack None console
  /\ (forall z, z < 0 ->
        show ToString JSON_stringify stack (Some z) console = Done console)
  /\ show ToString JSON_stringify [] n console = Done console.
Proof.
  split; [reflexivity|]. split.
  - intros z Hz. unfold show.
    replace (Z.to_nat (show_count stack (Some z))) with O; [reflexivity|].
    unfold show_count. destruct z; lia.
  - unfold show.
    replace (Z.to_nat (show_count [] n)) with O; [reflexivity|].
    pose proof (show_count_le [] n) as H. unfold depth, array_length in H.
    simpl in H. lia.
Qed.

(** With [undefined] on top of the stack (as ["dup"] leaves it on an empty
    stack) [show] throws before writing anything, unless asked for a
    negative count. *)
Theorem show_undefined_on_top stack console :
  show ToString JSON_stringify (stack ++ [undefined]) None console
  = Thrown TypeError console
  /\ (forall z, 0 <= z ->
        show ToString JSON_stringify (stack ++ [undefined]) (Some z) console
        = Thrown TypeError console).
Proof.
  assert (H : forall n, 1 <= show_count (stack ++ [undefined]) n ->
    show ToString JSON_stringify (stack ++ [undefined]) n console
    = Thrown TypeError console).
  { intros n Hn. unfold show.
    destruct (Z.to_nat (show_count (stack ++ [undefined]) n)) as [|c] eqn:Hc;
      [lia|].
    simpl. unfold topi.
    replace (array_length (stack ++ [undefined]) - 1 - 0)
      with (array_length (stack ++ [undefined]) - 1) by lia.
    now rewrite array_get_last. }
  split.
  - apply H. unfold show_count. rewrite depth_snoc.
    unfold depth, array_length. lia.
  - intros z Hz. apply H. unfold show_count. rewrite depth_snoc.
    unfold depth, array_length. destruct z; lia.
Qed.

End ShowFacts.

(** ** Instances of the further properties *)

Section MoreInstances.

Local Abbreviation num x := (@obj stdprim (number (PNum x))).
Local Abbreviation plain_text := (fun _ : payload stdprim => "?").
Local Abbreviation quoted := (fun t : String.string => t).

Lemma topi_counts_from_top_witness :
  reverse [num 1; num 2; num 3] !! Z.to_nat 1 = Some (num 2)
  /\ topi [num 1; num 2; num 3] (-1) = undefined.
Proof.
  split.
  - apply (proj1 (proj2 (topi_counts_from_top [num 1; num 2; num 3] 1))).
    unfold depth, array_length. simpl. lia.
  - apply (proj2 (proj2 (topi_counts_from_top [num 1; num 2; num 3] (-1)))).
    reflexivity.
Defined.

Lemma push_after_pop_witness :
  push (snd (pop [num 1; num 2])) (fst (pop [num 1; num 2]))
  = [num 1; num 2].
Proof.
  apply (proj1 (push_after_pop [num 1; num 2])). discriminate.
Defined.

Lemma lookup_define_other_witness :
  lookup (define Stdlib.test_env "x" (number (PNum 1))) "dup"
  = lookup Stdlib.test_env "dup".
Proof. apply lookup_define_other; discriminate. Defined.

Lemma define_commutes_witness :
  define (define (mk_env : Env stdprim) "x" (number (PNum 1)))
    "y" (number (PNum 2))
  = define (define mk_env "y" (number (PNum 2))) "x" (number (PNum 1)).
Proof. apply define_commutes; discriminate. Defined.

Lemma define_proto_installs_prototype_witness :
  own (define (mk_env : Env stdprim) "__proto__" (number (PNum 42))) = ∅
  /\ lookup (define (mk_env : Env stdprim) "__proto__" (number (PNum 42))) "v"
     = raw (PNum 42).
Proof.
  pose proof (define_proto_installs_prototype (mk_env : Env stdprim)
                (number (PNum 42)) eq_refl) as (Hown & _ & _ & Hv).
  split; [exact Hown | apply Hv; reflexivity].
Defined.

Lemma lookup_inherited_name_witness :
  lookup (mk_env : Env stdprim) "toString" = builtin "toString".
Proof.
  apply lookup_inherited_name. apply (bool_decide_eq_true_1 _). reflexivity.
Defined.

Lemma run_outside_program_witness :
  Stdlib.run mk_env [] (-1) []
  = Thrown TypeError {| env := mk_env; program := []; stack := [] |}
  /\ Stdlib.run mk_env [obj (word "missing")] 1 [num 1]
     = Done {| env := mk_env; program := [obj (word "missing")];
               stack := [num 1] |}.
Proof.
  split.
  - apply (proj2 (run_outside_program Stdlib.host mk_env [] (-1) [])).
    reflexivity.
  - apply (proj1 (run_outside_program Stdlib.host mk_env
                    [obj (word "missing")] 1 [num 1])).
    unfold array_length. simpl. lia.
Defined.

Lemma arith_succeeds_iff_witness :
  exists rest x y xv yv,
    [num 1; num 2] = rest ++ [x; y]
    /\ prop_v x = Some xv /\ prop_v y = Some yv
    /\ [num 3] = rest ++ [obj (number (Stdlib.js_binop Add xv yv))].
Proof.
  apply (proj1 (arith_succeeds_iff Add [num 1; num 2] [num 3])).
  reflexivity.
Defined.

Lemma arith_throws_after_popping_witness :
  Stdlib.arith Mul ([num 1] ++ [undefined; num 2]) = Thrown TypeError [num 1].
Proof.
  apply (proj2 (proj2 (arith_throws_after_popping Mul [num 1] undefined
                         (num 2) undefined))).
  left. reflexivity.
Defined.

Lemma host_frame_witness :
  Stdlib.host PrimDup ([num 1] ++ [num 2]) = Done ([num 1] ++ [num 2; num 2]).
Proof.
  apply (host_frame PrimDup [num 1] [num 2] [num 2; num 2]);
    [discriminate | reflexivity].
Defined.

Lemma load_stdlib_binds_witness :
  lookup (Stdlib.load_stdlib (define mk_env "x" (number (PNum 1)))) "x"
  = lookup (define mk_env "x" (number (PNum 1)) : Env stdprim) "x".
Proof.
  apply (proj1 (proj2 (load_stdlib_binds
                         (define mk_env "x" (number (PNum 1)))))).
  apply (bool_decide_eq_false_1 _). reflexivity.
Defined.

Lemma stddefs_extends_witness :
  lookup (Stdlib.load_stdlib_ext (define mk_env "x" (number (PNum 1)))) "x"
  = lookup (define mk_env "x" (number (PNum 1)) : Env stdprim) "x".
Proof.
  apply (proj2 (proj2 (proj2 (stddefs_extends
                                (define mk_env "x" (number (PNum 1))))))).
  apply (bool_decide_eq_false_1 _). reflexivity.
Defined.

Lemma show_top_first_witness :
  show plain_text quoted [num 1; obj (string "a"); obj (word "dup")]
    (Some 2) ["log"]
  = Done (["log"] ++ ["word(dup)"; "string(a)"]).
Proof.
  apply show_top_first. vm_compute.
  repeat constructor.
Defined.

Lemma show_count_edges_witness :
  show plain_text quoted [num 1] (Some (-3)) ["log"] = Done ["log"].
Proof.
  apply (proj1 (proj2 (show_count_edges plain_text quoted [num 1] None
                         ["log"]))).
  reflexivity.
Defined.

Lemma show_undefined_on_top_witness :
  show plain_text quoted ([num 1] ++ [undefined]) (Some 5) ["log"]
  = Thrown TypeError ["log"].
Proof.
  apply (proj2 (show_undefined_on_top plain_text quoted [num 1] ["log"])).
  lia.
Defined.

End MoreInstances.

(** * Runs on array objects *)

Section HeapFacts.

Context {P : Type} (host : P -> Stack P -> completion (Stack P)).
Implicit Types (h : Heap P) (w : World P) (pc : Z) (s : Stack P).

Lemma set_arrays_same h : set_arrays h (stack_in (heap_arrays h)) = h.
Proof. now destruct h as [e [p s|a]]. Qed.

Lemma heap_step_exec h pc :
  heap_step host h pc
  = with_arrays h (exec host (heap_env h)
                     (array_get (program_of (heap_arrays h)) pc)
                     (stack_in (heap_arrays h))).
Proof.
  unfold heap_step, exec.
  destruct (array_get (program_of (heap_arrays h)) pc) as [[]|[]|]; simpl;
    rewrite ?set_arrays_same; try reflexivity.
  destruct (lookup (heap_env h) v) as [[]|[]|]; simpl;
    rewrite ?set_arrays_same; reflexivity.
Qed.

(** On two different arrays an iteration is what [step] says. *)
Lemma heap_step_of w pc :
  heap_step host (heap_of w) pc = on_heap (step host w pc).
Proof.
  rewrite heap_step_exec, step_exec. simpl.
  now destruct (exec host (env w) (array_get (program w) pc) (stack w)).
Qed.

(** On two different arrays a run is what [run] says, and the iterations
    that remain at entry are fuel enough. *)
Lemma heap_run_from_apart (fuel : nat) : forall w pc,
  (remaining w pc <= fuel)%nat ->
  heap_run_from host fuel (heap_of w) pc
  = Some (on_heap (run_world host w pc)).
Proof.
  induction fuel as [|fuel IH]; intros w pc Hfuel; unfold remaining in Hfuel;
    rewrite run_world_unfold; simpl;
    destruct (Z.ltb_spec pc (array_length (program w))) as [Hlt|Hge];
    try reflexivity; [lia|].
  rewrite heap_step_of.
  destruct (step host w pc) as [w'|e w'] eqn:Hstep; simpl; [|reflexivity].
  apply IH. unfold remaining. rewrite (step_Done_program _ _ _ _ Hstep). lia.
Qed.

Lemma heap_run_from_more (fuel : nat) : forall h pc c (extra : nat),
  heap_run_from host fuel h pc = Some c ->
  heap_run_from host (fuel + extra) h pc = Some c.
Proof.
  induction fuel as [|fuel IH]; intros h pc c extra; simpl.
  - destruct (pc <? _) eqn:Hlt; [discriminate|].
    intros H. destruct extra; simpl; now rewrite Hlt.
  - destruct (pc <? _); [|auto].
    destruct (heap_step host h pc); [apply IH | auto].
Qed.

Lemma run_gives_unique h pc c c' :
  run_gives host h pc c -> run_gives host h pc c' -> c = c'.
Proof.
  intros [f Hf] [f' Hf'].
  apply (heap_run_from_more _ _ _ _ f') in Hf.
  apply (heap_run_from_more _ _ _ _ f) in Hf'.
  rewrite (Nat.add_comm f' f) in Hf'. congruence.
Qed.

Lemma run_gives_apart (env : Env P) (program : list (jsval P)) pc s :
  run_gives host (apart env program s) pc
    (on_heap (run host env program pc s)).
Proof.
  eexists. apply (heap_run_from_apart _
    {| env := env; program := program; stack := s |} pc (le_n _)).
Qed.

Lemma heap_stack_on_heap (c : completion (World P)) :
  heap_stack (on_heap c) = stack_of c.
Proof. now destruct c. Qed.

Lemma heap_run_Exec (fuel : nat) : forall h pc c,
  heap_run_from host fuel h pc = Some c ->
  exists k, HeapExec host h pc k c /\ (k <= fuel)%nat.
Proof.
  induction fuel as [|fuel IH]; intros h pc c; simpl;
    destruct (Z.ltb_spec pc (array_length (program_of (heap_arrays h))))
      as [Hlt|Hge]; try discriminate;
    try (intros [= <-]; exists O; split; [now constructor | lia]).
  destruct (heap_step host h pc) as [h'|e h'] eqn:Hstep.
  - intros Hrun. destruct (IH _ _ _ Hrun) as (k & Hk & Hle).
    exists (S k). split; [|lia]. eapply HeapExec_next; eauto.
  - intros [= <-]. exists 1%nat. split; [|lia]. now apply HeapExec_throw.
Qed.

Lemma HeapExec_run h pc k c :
  HeapExec host h pc k c ->
  forall fuel, (k <= fuel)%nat -> heap_run_from host fuel h pc = Some c.
Proof.
  induction 1 as [h pc Hge|h pc e h' Hlt Hstep|h pc h' k c Hlt Hstep _ IH];
    intros fuel Hfuel.
  - apply Z.ltb_ge in Hge. destruct fuel; simpl; now rewrite Hge.
  - apply Z.ltb_lt in Hlt. destruct fuel; [lia|]. simpl.
    now rewrite Hlt, Hstep.
  - apply Z.ltb_lt in Hlt. destruct fuel; [lia|]. simpl.
    rewrite Hlt, Hstep. apply IH. lia.
Qed.



(** Handed its own array as stack, a program pushes what it reads onto
    itself: while it reads literals, the end stays ahead of [pc]. *)
Lemma same_literals_never_return (env : Env P) (fuel : nat) :
  forall (a : list (jsval P)) pc,
  forallb is_literal a = true ->
  0 <= pc < array_length a ->
  heap_run_from host fuel (same env a) pc = None.
Proof.
  induction fuel as [|fuel IH]; intros a pc Hlits Hpc; simpl;
    destruct (Z.ltb_spec pc (array_length a)) as [Hlt|Hge]; try lia;
    [reflexivity|].
  rewrite heap_step_exec. simpl.
  destruct (lookup_lt_is_Some_2 a (Z.to_nat pc)) as [x Hx];
    [unfold array_length in Hlt; lia|].
  assert (Hget : array_get a pc = x).
  { rewrite <- (Z2Nat.id pc) at 1 by lia. now rewrite array_get_nat, Hx. }
  assert (Hlit : is_literal x = true).
  { rewrite forallb_forall in Hlits. apply Hlits.
    apply list_elem_of_In. eapply list_elem_of_lookup_2; eauto. }
  rewrite Hget, (exec_literal host env x a Hlit). simpl.
  apply (IH (a ++ [x]) (pc + 1)).
  - rewrite forallb_app, Hlits. simpl. now rewrite Hlit.
  - rewrite array_length_snoc. lia.
Qed.

End HeapFacts.

Section HeapTheorems.

Context {P : Type} (host : P -> Stack P -> completion (Stack P)).
Implicit Types (h : Heap P) (pc : Z) (s : Stack P) (env : Env P).

(** C8 (as the code has it): handed a stack that is an array other than the
    program, [run] terminates for every environment, program and starting
    [pc].  Each iteration advances [pc] by exactly one; the loop ends when
    [pc] reaches the program's length or at the first iteration that throws,
    after at most [program.length - pc] iterations ([n] for a program of
    length [n] entered at 0); that many units of fuel, or more, give the one
    result [c] that any run from there gives. *)
Theorem run_terminates_apart env (program : list (jsval P)) pc s :
  let h := apart env program s in
  let n := Z.to_nat (array_length program - pc) in
  exists c k,
    HeapExec host h pc k c
    /\ Z.of_nat k <= Z.max 0 (array_length program - pc)
    /\ (forall extra, heap_run_from host (n + extra) h pc = Some c)
    /\ (forall c', run_gives host h pc c' -> c' = c).
Proof.
  intros h n.
  pose proof (heap_run_from_apart host n
    {| env := env; program := program; stack := s |} pc (le_n _)) as Hrun.
  fold h in Hrun.
  set (c := on_heap (run_world host _ pc)) in Hrun.
  destruct (heap_run_Exec host _ _ _ _ Hrun) as (k & Hk & Hle).
  exists c, k. split; [exact Hk|]. split; [unfold n in Hle; lia|]. split.
  - intros extra. now apply heap_run_from_more.
  - intros c' Hc'. apply (run_gives_unique host h pc); [exact Hc'|].
    now exists n.
Qed.


(** On a stack that is an array other than the program, what [run] does to
    the stack is a fold over the instructions from [pc] on: each is executed
    on the stack its predecessor left, up to the first one that throws.  The
    instructions before [pc] play no part, so a run entered at [pc] does to
    the stack what a run of the rest of the program from 0 does. *)
Theorem heap_run_is_fold env (program : list (jsval P)) pc s :
  0 <= pc ->
  exists c c0,
    run_gives host (apart env program s) pc c
    /\ heap_stack c = run_list host env (drop (Z.to_nat pc) program) s
    /\ run_gives host (apart env (drop (Z.to_nat pc) program) s) 0 c0
    /\ heap_stack c0 = heap_stack c.
Proof.
  intros Hpc.
  exists (on_heap (run host env program pc s)),
         (on_heap (run host env (drop (Z.to_nat pc) program) 0 s)).
  split; [apply run_gives_apart|]. rewrite !heap_stack_on_heap.
  split; [now apply run_fold_stack|]. split; [apply run_gives_apart|].
  now rewrite run_fold_stack_0, run_fold_stack.
Qed.

(** Programs compose, on a stack that is an array other than the program:
    running [p ++ q] is running [p] and then, if [p] ran to its end, running
    [q] on the stack [p] left; if [p] threw, [p ++ q] throws the same with
    the same stack. *)
Theorem heap_run_app env (p q : list (jsval P)) s :
  exists c cp,
    run_gives host (apart env (p ++ q) s) 0 c
    /\ run_gives host (apart env p s) 0 cp
    /\ match heap_stack cp with
       | Done s1 =>
           exists cq, run_gives host (apart env q s1) 0 cq
                      /\ heap_stack c = heap_stack cq
       | Thrown e s1 => heap_stack c = Thrown e s1
       end.
Proof.
  exists (on_heap (run host env (p ++ q) 0 s)),
         (on_heap (run host env p 0 s)).
  split; [apply run_gives_apart|]. split; [apply run_gives_apart|].
  rewrite !heap_stack_on_heap, (run_world_app host env p q s).
  destruct (stack_of (run host env p 0 s)) as [s1|e s1]; [|reflexivity].
  exists (on_heap (run host env q 0 s1)).
  split; [apply run_gives_apart|]. now rewrite heap_stack_on_heap.
Qed.

(** A program of literals (no word, no primitive, no [undefined]) never
    consults the environment.  On a stack that is another array it never
    throws and pushes its values in order on top of the stack.  Handed its
    own array as the stack and entered inside it, it never returns: every
    iteration appends what it read, and the end stays ahead of [pc]. *)
Theorem heap_run_literals env (lits : list (jsval P)) s pc :
  forallb is_literal lits = true ->
  (exists c, run_gives host (apart env lits s) 0 c
             /\ heap_stack c = Done (s ++ lits))
  /\ (0 <= pc < array_length lits -> never_returns host (same env lits) pc).
Proof.
  intros Hlits. split.
  - exists (on_heap (run host env lits 0 s)).
    split; [apply run_gives_apart|].
    rewrite heap_stack_on_heap. now apply run_world_literals.
  - intros Hpc fuel. now apply same_literals_never_return.
Qed.

(** A word stands for the value it is bound to, on a stack that is an array
    other than the program: when no instruction of [p] resolves to a word,
    replacing every word of [p] by its binding gives a program that does the
    same to the stack, in any environment.  The condition is needed: an
    alias, a word bound to a word, is pushed and not looked up again. *)
Theorem heap_run_words_resolved env env' (p : list (jsval P)) s :
  forallb (fun i => negb (is_word (resolve env i))) p = true ->
  exists c c',
    run_gives host (apart env p s) 0 c
    /\ run_gives host (apart env' (map (resolve env) p) s) 0 c'
    /\ heap_stack c = heap_stack c'.
Proof.
  intros Hp.
  exists (on_heap (run host env p 0 s)),
         (on_heap (run host env' (map (resolve env) p) 0 s)).
  split; [apply run_gives_apart|]. split; [apply run_gives_apart|].
  rewrite !heap_stack_on_heap. now apply run_world_words_resolved.
Qed.

End HeapTheorems.

Section HeapInstances.

Local Abbreviation num x := (@obj stdprim (number (PNum x))).

(** In an environment that binds an operator's name to its primitive, the
    program [[number(x), number(y), word(name)]] run from 0 on a stack that
    is an array other than the program puts the operator's result on top and
    leaves the rest of that stack alone. *)
Theorem heap_run_binary_expression (env : Env stdprim) (op : binop)
    (x y : float) (s : Stack stdprim) :
  lookup env (operator_name op) = obj (prim (operator_prim op)) ->
  exists c,
    run_gives Stdlib.host
      (apart env [num x; num y; obj (word (operator_name op))] s) 0 c
    /\ heap_stack c = Done (s ++ [num (Stdlib.float_binop op x y)]).
Proof.
  intros Hop.
  exists (on_heap (Stdlib.run env
                     [num x; num y; obj (word (operator_name op))] 0 s)).
  split; [apply run_gives_apart|].
  rewrite heap_stack_on_heap. now apply run_world_binary_expression.
Qed.

(** Handed its own array as the stack, the program [[number(1)]] never
    returns: no amount of fuel ends the loop, and no count of iterations
    does. *)
Lemma run_on_own_program_never_returns :
  never_returns Stdlib.host (same mk_env [num 1]) 0
  /\ (forall k c, ~ HeapExec Stdlib.host (same mk_env [num 1]) 0 k c).
Proof.
  assert (Hnever : never_returns Stdlib.host (same mk_env [num 1]) 0).
  { intros fuel. apply same_literals_never_return; [reflexivity|].
    unfold array_length. simpl. lia. }
  split; [exact Hnever|].
  intros k c Hexec.
  pose proof (HeapExec_run Stdlib.host _ _ _ _ Hexec k (le_n _)) as Hrun.
  now rewrite (Hnever k) in Hrun.
Qed.


Lemma run_terminates_apart_witness :
  exists c k,
    HeapExec Stdlib.host
      (apart Stdlib.test_env [num 1; num 2; obj (word "+")] []) 0 k c
    /\ Z.of_nat k <= 3
    /\ run_gives Stdlib.host
         (apart Stdlib.test_env [num 1; num 2; obj (word "+")] []) 0 c.
Proof.
  destruct (run_terminates_apart Stdlib.host Stdlib.test_env
              [num 1; num 2; obj (word "+")] 0 [])
    as (c & k & Hexec & Hk & Hfuel & _).
  exists c, k. split; [exact Hexec|]. split; [exact Hk|].
  exists (3 + 0)%nat. apply Hfuel.
Defined.


Lemma heap_run_is_fold_witness :
  exists c c0,
    run_gives Stdlib.host
      (apart Stdlib.test_env [obj (word "missing"); num 1; obj (word "dup")]
         []) 1 c
    /\ heap_stack c
       = run_list Stdlib.host Stdlib.test_env [num 1; obj (word "dup")] []
    /\ run_gives Stdlib.host
         (apart Stdlib.test_env [num 1; obj (word "dup")] []) 0 c0
    /\ heap_stack c0 = heap_stack c.
Proof.
  apply (heap_run_is_fold Stdlib.host Stdlib.test_env
           [obj (word "missing"); num 1; obj (word "dup")] 1 []).
  lia.
Defined.

Lemma heap_run_literals_witness :
  (exists c,
      run_gives Stdlib.host
        (apart mk_env [num 1; obj (string "a"); builtin "toString"] [num 0])
        0 c
      /\ heap_stack c
         = Done ([num 0] ++ [num 1; obj (string "a"); builtin "toString"]))
  /\ never_returns Stdlib.host
       (same mk_env [num 1; obj (string "a"); builtin "toString"]) 2.
Proof.
  destruct (heap_run_literals Stdlib.host mk_env
              [num 1; obj (string "a"); builtin "toString"] [num 0] 2
              eq_refl) as [Hpush Hnever].
  split; [exact Hpush|]. apply Hnever.
  unfold array_length. simpl. lia.
Defined.

Lemma heap_run_words_resolved_witness :
  exists c c',
    run_gives Stdlib.host
      (apart Stdlib.test_env [num 1; obj (word "dup")] []) 0 c
    /\ run_gives Stdlib.host
         (apart mk_env [num 1; obj (prim PrimDup)] []) 0 c'
    /\ heap_stack c = heap_stack c'.
Proof.
  apply (heap_run_words_resolved Stdlib.host Stdlib.test_env mk_env
           [num 1; obj (word "dup")] []).
  reflexivity.
Defined.

Lemma heap_run_binary_expression_witness :
  exists c,
    run_gives Stdlib.host
      (apart Stdlib.test_env [num 6; num 3; obj (word (operator_name Div))]
         [num 7]) 0 c
    /\ heap_stack c = Done ([num 7] ++ [num (Stdlib.float_binop Div 6 3)]).
Proof. apply heap_run_binary_expression. reflexivity. Defined.

End HeapInstances.
